(** * Verification of Static/JavaScript/contact.js

    Two browser handlers:
    - the "submit" listener of the form #contact-form (lines 1-15);
    - the "DOMContentLoaded" listener animating the .progress bars
      (lines 16-25).

    JS strings are modelled as [string] (lists of 8-bit [ascii]); an
    [ascii] is read as a Latin-1 code unit, so the whitespace set of
    [String.prototype.trim] restricted to it is TAB, LF, VT, FF, CR, SP
    and NBSP (U+00A0). *)

From stdpp Require Import base list sets strings.
From Stdlib Require Import Ascii String.

(* ================================================================= *)
(** ** String.prototype.trim *)

Module JsString.

(** WhiteSpace and LineTerminator code units of ECMAScript within
    Latin-1: U+0009..U+000D, U+0020, U+00A0. *)
Definition is_js_ws (c : ascii) : bool :=
  let n := nat_of_ascii c in
  (Nat.eqb n 9 || Nat.eqb n 10 || Nat.eqb n 11 || Nat.eqb n 12 ||
   Nat.eqb n 13 || Nat.eqb n 32 || Nat.eqb n 160)%bool.

Fixpoint trimStart (s : string) : string :=
  match s with
  | EmptyString => EmptyString
  | String c r => if is_js_ws c then trimStart r else s
  end.

Definition string_rev (s : string) : string :=
  string_of_list_ascii (rev (list_ascii_of_string s)).

Definition trimEnd (s : string) : string :=
  string_rev (trimStart (string_rev s)).

Definition trim (s : string) : string := trimEnd (trimStart s).

(** [!s] on a string: true exactly for the empty string. *)
Definition js_not (s : string) : bool := String.eqb s "".

End JsString.

Import JsString.

(* ================================================================= *)
(** ** The submit handler (lines 1-15) *)

Module ContactForm.

(** An <input>/<textarea>: its current value and its default value
    (what [HTMLFormElement.reset] restores). *)
Record field := mkField { value : string; defaultValue : string }.

(** The part of the document the handler reads or writes. *)
Record doc := mkDoc {
  fld_name : field;       (* #name *)
  fld_email : field;      (* #email *)
  fld_message : field;    (* #message *)
  form_message : string   (* textContent of #form-message *)
}.

(** Observable DOM operations performed by the handler. *)
Inductive effect :=
  | PreventDefault
  | SetTextContent (id : string) (text : string)
  | FormReset.

(** The world seen by one dispatch of the submit event: the document,
    the event's canceled flag and the log of operations performed. *)
Record world := mkWorld {
  wdoc : doc;
  canceled : bool;
  wlog : list effect
}.

Definition preventDefault (w : world) : world :=
  mkWorld (wdoc w) true (wlog w ++ [PreventDefault]).

(** [document.getElementById("form-message").textContent = text] *)
Definition set_form_message (w : world) (text : string) : world :=
  let d := wdoc w in
  mkWorld (mkDoc (fld_name d) (fld_email d) (fld_message d) text)
          (canceled w) (wlog w ++ [SetTextContent "form-message" text]).

Definition reset_field (f : field) : field :=
  mkField (defaultValue f) (defaultValue f).

(** [this.reset()]: every control of the form gets its default value
    back; #form-message is not a form control. *)
Definition form_reset (w : world) : world :=
  let d := wdoc w in
  mkWorld (mkDoc (reset_field (fld_name d)) (reset_field (fld_email d))
                 (reset_field (fld_message d)) (form_message d))
          (canceled w) (wlog w ++ [FormReset]).

Definition msg_missing : string := "Please fill in all fields.".
Definition msg_thanks : string := "Thank you for reaching out!".

Definition submit_handler (w0 : world) : world :=
  let w := preventDefault w0 in
  let name := trim (value (fld_name (wdoc w))) in
  let email := trim (value (fld_email (wdoc w))) in
  let message := trim (value (fld_message (wdoc w))) in
  if (js_not name || js_not email || js_not message)%bool then
    set_form_message w msg_missing
  else
    form_reset (set_form_message w msg_thanks).

(** Validation succeeds when all three trimmed values are non-empty. *)
Definition valid (d : doc) : Prop :=
  trim (value (fld_name d)) <> "" /\
  trim (value (fld_email d)) <> "" /\
  trim (value (fld_message d)) <> "".

(** Modelled from the spec: the host page's markup (not under src/).
    Its form controls carry no default value ("clear all form fields
    back to their empty default state"), so a field holding [v] is
    [page_field v]. *)
Definition page_field (v : string) : field := mkField v "".

Definition page_doc (name email message status : string) : doc :=
  mkDoc (page_field name) (page_field email) (page_field message) status.

(** The operations appended to the log by one dispatch. *)
Definition new_effects (w0 w1 : world) : list effect :=
  drop (List.length (wlog w0)) (wlog w1).

Definition is_status_write (e : effect) : bool :=
  match e with SetTextContent _ _ => true | _ => false end.

(** The branch condition of line 8, negated: the success branch. *)
Definition validb (d : doc) : bool :=
  negb (js_not (trim (value (fld_name d))) ||
        js_not (trim (value (fld_email d))) ||
        js_not (trim (value (fld_message d))))%bool.

(** A value made of whitespace code units only. *)
Definition ws_only (s : string) : bool :=
  forallb is_js_ws (list_ascii_of_string s).

(** [s'] is [s] with whitespace added before and after. *)
Definition ws_padding (s s' : string) : Prop :=
  exists a b, ws_only a = true /\ ws_only b = true /\ s' = (a ++ s ++ b)%string.

End ContactForm.

Import ContactForm.

(* ================================================================= *)
(** ** The DOMContentLoaded handler (lines 16-25) *)

Module Progress.

(** An element of the document: whether it matches [.progress], and its
    inline [style.width] ("" when unset). *)
Record elem := mkElem { is_progress : bool; style_width : string }.

(** A pending [setTimeout] callback [() => { bar.style.width = width; }]:
    the time it becomes due, the bar (index in the document) and the
    captured width. *)
Record timer := mkTimer { t_due : nat; t_idx : nat; t_width : string }.

Record page := mkPage {
  now : nat;            (* current time, in milliseconds *)
  elems : list elem;    (* the elements of the document, in tree order *)
  timers : list timer   (* callbacks scheduled and not yet run *)
}.

Definition set_width (w : string) (e : elem) : elem :=
  mkElem (is_progress e) w.

(** [bar.style.width = w] *)
Definition write_width (p : page) (i : nat) (w : string) : page :=
  mkPage (now p) (alter (set_width w) i (elems p)) (timers p).

(** [setTimeout(cb, delay)] *)
Definition setTimeout (p : page) (delay i : nat) (w : string) : page :=
  mkPage (now p) (elems p) (timers p ++ [mkTimer (now p + delay) i w]).

(** [document.querySelectorAll('.progress')]: the matching elements in
    tree order, as indices into [elems]. *)
Definition querySelectorAll_progress (es : list elem) : list nat :=
  List.filter (fun i => match es !! i with
                        | Some e => is_progress e
                        | None => false
                        end) (seq 0 (List.length es)).

(** The body of [bars.forEach(bar => { ... })]. *)
Definition bar_body (p : page) (i : nat) : page :=
  match elems p !! i with
  | Some bar =>
      let width := style_width bar in
      let p1 := write_width p i "0%" in
      setTimeout p1 300 i width
  | None => p
  end.

Definition on_dom_content_loaded (p : page) : page :=
  let bars := querySelectorAll_progress (elems p) in
  foldl bar_body p bars.

(** The event loop after the handler: time passes, and a due callback
    may run; pending callbacks run in any order. *)
Inductive step : page -> page -> Prop :=
  | step_tick p :
      step p (mkPage (S (now p)) (elems p) (timers p))
  | step_fire p t1 t t2 :
      timers p = t1 ++ t :: t2 ->
      t_due t <= now p ->
      step p (mkPage (now p) (alter (set_width (t_width t)) (t_idx t) (elems p))
                     (t1 ++ t2)).

Inductive steps : page -> page -> Prop :=
  | steps_refl p : steps p p
  | steps_cons p q r : step p q -> steps q r -> steps p r.

(** The bars whose callback is still pending. *)
Definition pending (q : page) : list nat := List.map t_idx (timers q).

(** What holds of the page [q] at any time after the handler ran on the
    page [p0]: a bar with a pending callback shows "0%", every other
    element shows its width in [p0]; each pending callback restores the
    width its bar had in [p0], 300 ms after the handler ran. *)
Definition anim_inv (p0 q : page) : Prop :=
  List.length (elems q) = List.length (elems p0) /\
  NoDup (pending q) /\
  (forall t, In t (timers q) ->
     exists e, elems p0 !! t_idx t = Some e /\ t_width t = style_width e /\
               t_due t = now p0 + 300) /\
  (forall i e, elems p0 !! i = Some e ->
     elems q !! i = Some (if in_dec Nat.eq_dec i (pending q)
                          then set_width "0%" e else e)).

End Progress.

Import Progress.

Example scenario_ada :
  wdoc (submit_handler (mkWorld (page_doc "Ada" "ada@example.com" "Hello" "") false []))
  = page_doc "" "" "" "Thank you for reaching out!".
Proof. reflexivity. Qed.

Example scenario_missing_name :
  wdoc (submit_handler (mkWorld (page_doc "" "x@y.com" "Hi" "") false []))
  = page_doc "" "x@y.com" "Hi" "Please fill in all fields.".
Proof. reflexivity. Qed.

Example trim_example : trim "  a b	 " = "a b".
Proof. reflexivity. Qed.

Example scenario_progress :
  let p1 := on_dom_content_loaded (mkPage 0 [mkElem true "75%"] []) in
  elems p1 = [mkElem true "0%"] /\ timers p1 = [mkTimer 300 0 "75%"].
Proof. split; reflexivity. Qed.

(* ================================================================= *)
(** ** Properties of the submit handler *)

Lemma js_not_true (s : string) : js_not s = true <-> s = "".
Proof. unfold js_not. apply String.eqb_eq. Qed.

Lemma js_not_false (s : string) : js_not s = false <-> s <> "".
Proof. unfold js_not. apply String.eqb_neq. Qed.

Lemma validb_true (d : doc) : validb d = true <-> valid d.
Proof.
  unfold validb, valid.
  destruct (js_not (trim (value (fld_name d)))) eqn:Hn;
  destruct (js_not (trim (value (fld_email d)))) eqn:He;
  destruct (js_not (trim (value (fld_message d)))) eqn:Hm;
  rewrite ?js_not_true, ?js_not_false in *; simpl; intuition congruence.
Qed.

Lemma trimStart_ws_only (s : string) : ws_only s = true -> trimStart s = "".
Proof.
  unfold ws_only. induction s as [|c r IH]; simpl; [done|].
  intros H. apply andb_prop in H as [Hc Hr]. rewrite Hc. auto.
Qed.

Lemma trim_ws_only (s : string) : ws_only s = true -> trim s = "".
Proof. intros H. unfold trim. rewrite (trimStart_ws_only s H). reflexivity. Qed.

(** The handler, unfolded on its two branches. *)
Lemma submit_handler_eq (w : world) :
  submit_handler w =
  let d := wdoc w in
  if validb d then
    mkWorld (mkDoc (reset_field (fld_name d)) (reset_field (fld_email d))
                   (reset_field (fld_message d)) msg_thanks)
            true (wlog w ++ [PreventDefault] ++
                  [SetTextContent "form-message" msg_thanks] ++ [FormReset])
  else
    mkWorld (mkDoc (fld_name d) (fld_email d) (fld_message d) msg_missing)
            true (wlog w ++ [PreventDefault] ++
                  [SetTextContent "form-message" msg_missing]).
Proof.
  destruct w as [[n e m st] c lg].
  unfold submit_handler, validb, form_reset, set_form_message, preventDefault.
  simpl. destruct (_ || _)%bool; simpl; rewrite <- ?app_assoc; reflexivity.
Qed.

Lemma new_effects_app (w : world) (l : list effect) (d : doc) (c : bool) :
  new_effects w (mkWorld d c (wlog w ++ l)) = l.
Proof. unfold new_effects. simpl. apply drop_app_length. Qed.

(** Claim C1: when the three trimmed values are non-empty, the status
    text becomes "Thank you for reaching out!" and the three fields of
    the page's form are empty afterwards. *)
Theorem submit_success_clears (name email message status : string)
    (c : bool) (lg : list effect) :
  trim name <> "" -> trim email <> "" -> trim message <> "" ->
  let w1 := submit_handler (mkWorld (page_doc name email message status) c lg) in
  form_message (wdoc w1) = "Thank you for reaching out!" /\
  value (fld_name (wdoc w1)) = "" /\
  value (fld_email (wdoc w1)) = "" /\
  value (fld_message (wdoc w1)) = "".
Proof.
  intros Hn He Hm. rewrite submit_handler_eq. simpl.
  assert (Hv : validb (page_doc name email message status) = true)
    by (apply validb_true; unfold valid; simpl; auto).
  rewrite Hv. simpl. auto.
Qed.

Lemma submit_success_clears_witness :
  let w1 := submit_handler
              (mkWorld (page_doc "Ada" "ada@example.com" "Hello" "") false []) in
  form_message (wdoc w1) = "Thank you for reaching out!" /\
  value (fld_name (wdoc w1)) = "" /\
  value (fld_email (wdoc w1)) = "" /\
  value (fld_message (wdoc w1)) = "".
Proof.
  apply (submit_success_clears "Ada" "ada@example.com" "Hello" "" false []);
  vm_compute; discriminate.
Defined.

(** Claim C2: when one of the three trimmed values is empty, the status
    text becomes "Please fill in all fields." and the three fields keep
    the values entered (no reset). *)
Theorem submit_failure_keeps_fields (d : doc) (c : bool) (lg : list effect) :
  trim (value (fld_name d)) = "" \/ trim (value (fld_email d)) = "" \/
  trim (value (fld_message d)) = "" ->
  let w1 := submit_handler (mkWorld d c lg) in
  form_message (wdoc w1) = "Please fill in all fields." /\
  fld_name (wdoc w1) = fld_name d /\
  fld_email (wdoc w1) = fld_email d /\
  fld_message (wdoc w1) = fld_message d.
Proof.
  intros Hempty. rewrite submit_handler_eq. simpl.
  destruct (validb d) eqn:Hv.
  - apply validb_true in Hv. unfold valid in Hv. exfalso. tauto.
  - simpl. auto.
Qed.

Lemma submit_failure_keeps_fields_witness :
  let d := page_doc "" "x@y.com" "Hi" "" in
  let w1 := submit_handler (mkWorld d false []) in
  form_message (wdoc w1) = "Please fill in all fields." /\
  fld_name (wdoc w1) = fld_name d /\
  fld_email (wdoc w1) = fld_email d /\
  fld_message (wdoc w1) = fld_message d.
Proof.
  apply (submit_failure_keeps_fields (page_doc "" "x@y.com" "Hi" "") false []).
  left. reflexivity.
Defined.

(** Claim C3: every dispatch cancels the event (preventDefault) as its
    first operation, on both branches. *)
Theorem submit_prevents_default (w : world) :
  canceled (submit_handler w) = true /\
  head (new_effects w (submit_handler w)) = Some PreventDefault.
Proof.
  rewrite submit_handler_eq. simpl.
  destruct (validb (wdoc w)); rewrite new_effects_app; auto.
Qed.

(** Claim C5: a value made of whitespace only trims to the empty string,
    and a submission with such a name, email or message takes the failure
    path: error status text, fields unchanged. *)
Theorem submit_whitespace_only_fails :
  (forall s : string, ws_only s = true -> trim s = "") /\
  (forall (d : doc) (c : bool) (lg : list effect),
     ws_only (value (fld_name d)) = true \/
     ws_only (value (fld_email d)) = true \/
     ws_only (value (fld_message d)) = true ->
     let w1 := submit_handler (mkWorld d c lg) in
     form_message (wdoc w1) = "Please fill in all fields." /\
     fld_name (wdoc w1) = fld_name d /\
     fld_email (wdoc w1) = fld_email d /\
     fld_message (wdoc w1) = fld_message d).
Proof.
  split; [exact trim_ws_only|].
  intros d c lg Hws. rewrite submit_handler_eq. simpl.
  destruct (validb d) eqn:Hv.
  - apply validb_true in Hv. unfold valid in Hv. exfalso.
    destruct Hws as [H|[H|H]]; apply trim_ws_only in H; tauto.
  - simpl. auto.
Qed.

Lemma submit_whitespace_only_fails_witness :
  trim "   " = "" /\
  form_message (wdoc (submit_handler
    (mkWorld (page_doc "   " "ada@example.com" "Hello" "") false []))) =
  "Please fill in all fields.".
Proof.
  destruct submit_whitespace_only_fails as [H1 H2]. split.
  - apply H1. reflexivity.
  - apply (H2 (page_doc "   " "ada@example.com" "Hello" "") false []).
    left. reflexivity.
Defined.

(** Claim C6: one dispatch appends exactly [PreventDefault], one write of
    #form-message's text, and [FormReset] on the success branch only;
    the document changes only in that text and, on success, in the reset
    form fields. *)
Theorem submit_effects_frame (w : world) :
  let w1 := submit_handler w in
  let d := wdoc w in
  wlog w1 = wlog w ++ new_effects w w1 /\
  new_effects w w1 =
    [PreventDefault;
     SetTextContent "form-message" (if validb d then msg_thanks else msg_missing)]
    ++ (if validb d then [FormReset] else []) /\
  List.length (List.filter is_status_write (new_effects w w1)) = 1 /\
  (FormReset ∈ new_effects w w1 <-> valid d) /\
  wdoc w1 =
    (if validb d then
       mkDoc (reset_field (fld_name d)) (reset_field (fld_email d))
             (reset_field (fld_message d)) msg_thanks
     else mkDoc (fld_name d) (fld_email d) (fld_message d) msg_missing).
Proof.
  simpl. rewrite <- validb_true, submit_handler_eq. simpl.
  destruct (validb (wdoc w)); rewrite new_effects_app; simpl;
    (split; [reflexivity|]); split_and!; try reflexivity;
    split; intros H; try done; try set_solver.
Qed.

(** Claim C9: the handler's branch, status text and reset decision are
    a function of the three field values. *)
Theorem submit_deterministic (w w' : world) :
  value (fld_name (wdoc w)) = value (fld_name (wdoc w')) ->
  value (fld_email (wdoc w)) = value (fld_email (wdoc w')) ->
  value (fld_message (wdoc w)) = value (fld_message (wdoc w')) ->
  validb (wdoc w) = validb (wdoc w') /\
  form_message (wdoc (submit_handler w)) = form_message (wdoc (submit_handler w')) /\
  new_effects w (submit_handler w) = new_effects w' (submit_handler w').
Proof.
  intros Hn He Hm.
  assert (Hv : validb (wdoc w) = validb (wdoc w'))
    by (unfold validb; rewrite Hn, He, Hm; reflexivity).
  rewrite !submit_handler_eq. simpl. rewrite Hv.
  destruct (validb (wdoc w')); rewrite !new_effects_app; simpl; auto.
Qed.

Lemma submit_deterministic_witness :
  let w := mkWorld (page_doc "Ada" "a@b.c" "Hi" "") false [] in
  let w' := mkWorld (mkDoc (mkField "Ada" "x") (mkField "a@b.c" "")
                           (mkField "Hi" "") "old") true [FormReset] in
  validb (wdoc w) = validb (wdoc w') /\
  form_message (wdoc (submit_handler w)) = form_message (wdoc (submit_handler w')) /\
  new_effects w (submit_handler w) = new_effects w' (submit_handler w').
Proof.
  apply submit_deterministic; reflexivity.
Defined.

(* ================================================================= *)
(** ** Properties of the progress animation *)

Lemma set_width_restore (e : elem) (w : string) :
  set_width (style_width e) (set_width w e) = e.
Proof. destruct e; reflexivity. Qed.

Lemma in_app_cons_ne (j x : nat) (A B : list nat) :
  j <> x -> (In j (A ++ x :: B) <-> In j (A ++ B)).
Proof.
  intros Hne. rewrite !in_app_iff. simpl. intuition congruence.
Qed.

Lemma in_query_progress (es : list elem) (i : nat) :
  In i (querySelectorAll_progress es) <->
  exists e, es !! i = Some e /\ is_progress e = true.
Proof.
  unfold querySelectorAll_progress. rewrite filter_In, in_seq. split.
  - intros [_ Hm]. destruct (es !! i) eqn:He; [eauto|discriminate].
  - intros [e [He Hp]]. apply lookup_lt_Some in He as Hlt.
    rewrite He. split; [lia|done].
Qed.

Lemma query_progress_NoDup (es : list elem) :
  List.NoDup (querySelectorAll_progress es).
Proof. unfold querySelectorAll_progress. apply List.NoDup_filter, seq_NoDup. Qed.

Lemma anim_inv_init (p : page) : timers p = [] -> anim_inv p p.
Proof.
  intros H. unfold anim_inv, pending. rewrite H. simpl.
  split_and!; [done|constructor|intros t []|]. intros i e He. exact He.
Qed.

Lemma bar_body_inv (p0 p : page) (i : nat) :
  anim_inv p0 p -> now p = now p0 -> ~ In i (pending p) ->
  (exists e, elems p0 !! i = Some e) ->
  anim_inv p0 (bar_body p i) /\ now (bar_body p i) = now p0 /\
  pending (bar_body p i) = pending p ++ [i].
Proof.
  intros [Hl [Hnd [Ht Hel]]] Hnow Hni [e He].
  pose proof (Hel i e He) as Hq.
  destruct (in_dec Nat.eq_dec i (pending p)) as [Hin|_]; [contradiction|].
  unfold bar_body. rewrite Hq. unfold anim_inv, setTimeout, write_width, pending in *.
  simpl. rewrite map_app. simpl. split_and!.
  - rewrite length_alter. done.
  - apply NoDup_app. split_and!; [done| |apply NoDup_singleton].
    intros x Hx Hx'. apply list_elem_of_singleton in Hx'. subst x.
    apply Hni, list_elem_of_In, Hx.
  - intros t Ht'. apply in_app_or in Ht' as [Ht'|[<-|[]]]; [by apply Ht|].
    simpl. exists e. rewrite Hnow. done.
  - intros j e' He'. destruct (decide (j = i)) as [->|Hne].
    + rewrite He in He'. injection He' as <-.
      rewrite list_lookup_alter_eq, Hq. simpl.
      destruct (in_dec Nat.eq_dec i _) as [_|Hn]; [done|].
      exfalso. apply Hn, in_or_app. right. left. done.
    + rewrite list_lookup_alter_ne by congruence. rewrite (Hel j e' He').
      destruct (in_dec Nat.eq_dec j (map t_idx (timers p))) as [H1|H1];
      destruct (in_dec Nat.eq_dec j (map t_idx (timers p) ++ [i])) as [H2|H2];
      try done; exfalso.
      * apply H2, in_or_app. left. done.
      * apply in_app_or in H2 as [H2|[H2|[]]]; [done|congruence].
  - rewrite Hnow. done.
  - done.
Qed.

Lemma foldl_bar_body_inv (p0 : page) (l : list nat) :
  forall p, anim_inv p0 p -> now p = now p0 -> List.NoDup l ->
  (forall i, In i l -> ~ In i (pending p) /\ exists e, elems p0 !! i = Some e) ->
  anim_inv p0 (foldl bar_body p l) /\ now (foldl bar_body p l) = now p0 /\
  pending (foldl bar_body p l) = pending p ++ l.
Proof.
  induction l as [|a l IH]; intros p Hinv Hnow Hnd Hl; simpl.
  - rewrite app_nil_r. auto.
  - inversion Hnd as [|? ? Hna Hnd']; subst.
    destruct (Hl a (or_introl eq_refl)) as [Hna' Hea].
    destruct (bar_body_inv p0 p a Hinv Hnow Hna' Hea) as [Hinv' [Hnow' Hpend]].
    destruct (IH (bar_body p a) Hinv' Hnow' Hnd') as [H1 [H2 H3]].
    { intros i Hi. split; [|apply Hl; right; done].
      rewrite Hpend. intros Hi'. apply in_app_or in Hi' as [Hi'|[<-|[]]].
      - apply (Hl i (or_intror Hi)). done.
      - contradiction. }
    split_and!; [done|done|]. rewrite H3, Hpend, <- app_assoc. done.
Qed.

Lemma dom_ready_inv (p : page) :
  timers p = [] ->
  anim_inv p (on_dom_content_loaded p) /\
  now (on_dom_content_loaded p) = now p /\
  pending (on_dom_content_loaded p) = querySelectorAll_progress (elems p).
Proof.
  intros H. unfold on_dom_content_loaded.
  destruct (foldl_bar_body_inv p (querySelectorAll_progress (elems p)) p)
    as [H1 [H2 H3]].
  - apply anim_inv_init, H.
  - done.
  - apply query_progress_NoDup.
  - intros i Hi. unfold pending. rewrite H. split; [intros []|].
    apply in_query_progress in Hi as [e [He _]]. eauto.
  - split_and!; [done|done|]. rewrite H3. unfold pending. rewrite H. done.
Qed.

Lemma step_inv (p0 q q' : page) : anim_inv p0 q -> step q q' -> anim_inv p0 q'.
Proof.
  intros Hinv Hs. destruct Hs as [q|q t1 t t2 Htq Hdue].
  - destruct q. exact Hinv.
  - destruct Hinv as [Hl [Hnd [Ht Hel]]].
    assert (Hpq : pending q = map t_idx t1 ++ t_idx t :: map t_idx t2)
      by (unfold pending; rewrite Htq, map_app; done).
    destruct (Ht t) as [e0 [He0 [Hw _]]].
    { rewrite Htq. apply in_or_app. right. left. done. }
    unfold anim_inv, pending in *. simpl. rewrite map_app. split_and!.
    + rewrite length_alter. done.
    + rewrite Hpq in Hnd. apply NoDup_ListNoDup in Hnd.
      apply NoDup_ListNoDup. eapply NoDup_remove_1. exact Hnd.
    + intros t' Ht'. apply Ht. rewrite Htq.
      apply in_app_or in Ht' as [H|H]; apply in_or_app; [left|right; right]; done.
    + intros j e He. destruct (decide (j = t_idx t)) as [->|Hne].
      * rewrite He0 in He. injection He as <-.
        rewrite list_lookup_alter_eq, (Hel _ e0 He0).
        destruct (in_dec Nat.eq_dec (t_idx t) (map t_idx (timers q))) as [_|Hn].
        2:{ exfalso. apply Hn. rewrite Hpq. apply in_or_app. right. left. done. }
        simpl. rewrite Hw, set_width_restore.
        destruct (in_dec Nat.eq_dec (t_idx t) _) as [Hin|_]; [|done].
        exfalso. rewrite Hpq in Hnd. apply NoDup_ListNoDup in Hnd.
        eapply NoDup_remove_2; eauto.
      * rewrite list_lookup_alter_ne by congruence. rewrite (Hel j e He).
        rewrite Hpq. pose proof (in_app_cons_ne j (t_idx t) (map t_idx t1)
                                   (map t_idx t2) Hne) as Hiff.
        destruct (in_dec Nat.eq_dec j (map t_idx t1 ++ t_idx t :: map t_idx t2));
        destruct (in_dec Nat.eq_dec j (map t_idx t1 ++ map t_idx t2));
        tauto || done.
Qed.

Lemma steps_inv (p0 q r : page) : anim_inv p0 q -> steps q r -> anim_inv p0 r.
Proof.
  intros Hinv Hs. induction Hs as [q|q q' r Hs Hss IH]; [done|].
  apply IH. eapply step_inv; eauto.
Qed.

Lemma steps_now_mono (q r : page) : steps q r -> now q <= now r.
Proof.
  induction 1 as [q|q q' r Hs Hss IH]; [lia|].
  destruct Hs; simpl in *; lia.
Qed.

(** No callback runs before it is due. *)
Lemma steps_before_due (T : nat) (q r : page) :
  steps q r -> (forall t, In t (timers q) -> t_due t = T) -> now r < T ->
  elems r = elems q /\ timers r = timers q.
Proof.
  induction 1 as [q|q q' r Hs Hss IH]; intros Hdue Hlt; [done|].
  pose proof (steps_now_mono _ _ Hss) as Hmono.
  destruct Hs as [q|q t1 t t2 Htq Hle].
  - simpl in *. apply IH; done.
  - exfalso. simpl in Hmono.
    assert (Hin : In t (timers q)) by (rewrite Htq; apply in_or_app; right; left; done).
    specialize (Hdue t Hin). lia.
Qed.

Lemma anim_inv_fired (p0 q : page) (i : nat) (e : elem) :
  anim_inv p0 q -> elems p0 !! i = Some e -> ~ In i (pending q) ->
  elems q !! i = Some e.
Proof.
  intros [_ [_ [_ Hel]]] He Hn. rewrite (Hel i e He).
  destruct (in_dec Nat.eq_dec i (pending q)); [contradiction|done].
Qed.

Lemma anim_inv_all_fired (p0 q : page) :
  anim_inv p0 q -> timers q = [] -> elems q = elems p0.
Proof.
  intros Hinv Ht. apply list_eq. intros i.
  destruct (elems p0 !! i) as [e|] eqn:He.
  - apply (anim_inv_fired p0 q i e Hinv He). unfold pending. rewrite Ht. intros [].
  - destruct Hinv as [Hl _]. apply lookup_ge_None in He.
    apply lookup_ge_None. lia.
Qed.

Lemma dom_ready_progress_zeroed (p : page) (i : nat) (e : elem) :
  timers p = [] -> elems p !! i = Some e -> is_progress e = true ->
  elems (on_dom_content_loaded p) !! i = Some (set_width "0%" e) /\
  In (mkTimer (now p + 300) i (style_width e)) (timers (on_dom_content_loaded p)).
Proof.
  intros Ht He Hp. destruct (dom_ready_inv p Ht) as [Hinv [_ Hpend]].
  assert (Hin : In i (pending (on_dom_content_loaded p))).
  { rewrite Hpend. apply in_query_progress. eauto. }
  pose proof Hinv as [_ [_ [Htm Hel]]]. split.
  - rewrite (Hel i e He). destruct (in_dec Nat.eq_dec _ _); [done|contradiction].
  - unfold pending in Hin. apply in_map_iff in Hin as [t [Hti Htin]].
    destruct (Htm t Htin) as [e' [He' [Hw Hd]]].
    rewrite Hti, He in He'. injection He' as <-.
    destruct t as [d i' w]. simpl in *. subst. done.
Qed.

(** Claim C4: right after the handler, every .progress element shows
    "0%" and has a callback due 300 ms later carrying its captured width;
    before that time no width changes; once an element's callback ran its
    width is the captured one, and once all ran the document is back to
    its state before the handler. *)
Theorem progress_bars_animate (p : page) :
  timers p = [] ->
  let p1 := on_dom_content_loaded p in
  (forall i e, elems p !! i = Some e -> is_progress e = true ->
     elems p1 !! i = Some (set_width "0%" e) /\
     In (mkTimer (now p + 300) i (style_width e)) (timers p1)) /\
  (forall q, steps p1 q -> now q < now p + 300 -> elems q = elems p1) /\
  (forall q, steps p1 q -> forall i e, elems p !! i = Some e ->
     ~ In i (pending q) -> elems q !! i = Some e) /\
  (forall q, steps p1 q -> timers q = [] -> elems q = elems p).
Proof.
  intros Ht. simpl. destruct (dom_ready_inv p Ht) as [Hinv [Hnow _]].
  split_and!.
  - intros i e He Hp. apply dom_ready_progress_zeroed; done.
  - intros q Hs Hlt. eapply steps_before_due; [exact Hs| |exact Hlt].
    intros t Hin. destruct Hinv as [_ [_ [Htm _]]].
    destruct (Htm t Hin) as [e [_ [_ Hd]]]. done.
  - intros q Hs i e He Hn. eapply anim_inv_fired; [|exact He|exact Hn].
    eapply steps_inv; eauto.
  - intros q Hs Hq. eapply anim_inv_all_fired; [|exact Hq].
    eapply steps_inv; eauto.
Qed.

Lemma progress_bars_animate_witness :
  let p := mkPage 0 [mkElem true "75%"] [] in
  let p1 := on_dom_content_loaded p in
  (forall i e, elems p !! i = Some e -> is_progress e = true ->
     elems p1 !! i = Some (set_width "0%" e) /\
     In (mkTimer (now p + 300) i (style_width e)) (timers p1)) /\
  (forall q, steps p1 q -> now q < now p + 300 -> elems q = elems p1) /\
  (forall q, steps p1 q -> forall i e, elems p !! i = Some e ->
     ~ In i (pending q) -> elems q !! i = Some e) /\
  (forall q, steps p1 q -> timers q = [] -> elems q = elems p).
Proof. apply (progress_bars_animate (mkPage 0 [mkElem true "75%"] [])). reflexivity. Defined.

(** Claim C7: a bar whose width is unset ("") at capture time gets
    exactly "" back: the callback carries "", and once it ran the
    element is the one before the handler, width "" included. *)
Theorem progress_empty_width_restored (p : page) (i : nat) (e : elem) :
  timers p = [] -> elems p !! i = Some e -> is_progress e = true ->
  style_width e = "" ->
  In (mkTimer (now p + 300) i "") (timers (on_dom_content_loaded p)) /\
  (forall q, steps (on_dom_content_loaded p) q -> ~ In i (pending q) ->
     exists e', elems q !! i = Some e' /\ style_width e' = "").
Proof.
  intros Ht He Hp Hw. destruct (dom_ready_inv p Ht) as [Hinv _].
  split.
  - rewrite <- Hw. apply dom_ready_progress_zeroed; done.
  - intros q Hs Hn. exists e. split; [|done].
    eapply anim_inv_fired; [eapply steps_inv; eauto|exact He|exact Hn].
Qed.

Lemma progress_empty_width_restored_witness :
  let p := mkPage 5 [mkElem false "10px"; mkElem true ""] [] in
  In (mkTimer (now p + 300) 1 "") (timers (on_dom_content_loaded p)) /\
  (forall q, steps (on_dom_content_loaded p) q -> ~ In 1 (pending q) ->
     exists e', elems q !! 1 = Some e' /\ style_width e' = "").
Proof.
  apply (progress_empty_width_restored
           (mkPage 5 [mkElem false "10px"; mkElem true ""] []) 1 (mkElem true ""));
  reflexivity.
Defined.

(** Claim C8: when no element matches .progress, the handler leaves the
    page as it was: no width written, no callback scheduled. *)
Theorem progress_no_bars_noop (p : page) :
  querySelectorAll_progress (elems p) = [] ->
  on_dom_content_loaded p = p.
Proof. intros H. unfold on_dom_content_loaded. rewrite H. reflexivity. Qed.

Lemma progress_no_bars_noop_witness :
  let p := mkPage 0 [mkElem false "50%"] [mkTimer 7 0 "x"] in
  querySelectorAll_progress (elems p) = [] /\ on_dom_content_loaded p = p.
Proof.
  split; [reflexivity|].
  apply (progress_no_bars_noop (mkPage 0 [mkElem false "50%"] [mkTimer 7 0 "x"])).
  reflexivity.
Defined.

(** Claim C10: every matched element is set to the literal "0%" whatever
    its captured width (e.g. "40px"), and once its callback ran its width
    is "0%" only if it was "0%" before the handler. *)
Theorem progress_reset_literal_zero (p : page) (i : nat) (e : elem) :
  timers p = [] -> elems p !! i = Some e -> is_progress e = true ->
  style_width <$> (elems (on_dom_content_loaded p) !! i) = Some "0%" /\
  (forall q e', steps (on_dom_content_loaded p) q -> ~ In i (pending q) ->
     elems q !! i = Some e' -> (style_width e' = "0%" <-> style_width e = "0%")).
Proof.
  intros Ht He Hp. destruct (dom_ready_inv p Ht) as [Hinv _].
  split.
  - destruct (dom_ready_progress_zeroed p i e Ht He Hp) as [Hz _].
    rewrite Hz. reflexivity.
  - intros q e' Hs Hn Hq.
    rewrite (anim_inv_fired p q i e (steps_inv _ _ _ Hinv Hs) He Hn) in Hq.
    injection Hq as <-. done.
Qed.

Lemma progress_reset_literal_zero_witness :
  let p := mkPage 0 [mkElem true "40px"] [] in
  style_width <$> (elems (on_dom_content_loaded p) !! 0) = Some "0%" /\
  (forall q e', steps (on_dom_content_loaded p) q -> ~ In 0 (pending q) ->
     elems q !! 0 = Some e' -> (style_width e' = "0%" <-> "40px" = "0%")).
Proof.
  apply (progress_reset_literal_zero (mkPage 0 [mkElem true "40px"] []) 0
           (mkElem true "40px")); reflexivity.
Defined.

(* ================================================================= *)
(** ** Further properties of the submit handler *)

Lemma ws_only_trimStart (s : string) : ws_only (trimStart s) = ws_only s.
Proof.
  induction s as [|c r IH]; [done|]. simpl.
  destruct (is_js_ws c) eqn:Hc; [|done]. rewrite IH. unfold ws_only. simpl.
  rewrite Hc. done.
Qed.

Lemma forallb_rev_eq {A} (f : A -> bool) (l : list A) :
  forallb f (rev l) = forallb f l.
Proof.
  induction l as [|a l IH]; [done|]. simpl. rewrite forallb_app, IH. simpl.
  rewrite andb_true_r, andb_comm. done.
Qed.

Lemma ws_only_rev (s : string) : ws_only (string_rev s) = ws_only s.
Proof.
  unfold ws_only, string_rev. rewrite list_ascii_of_string_of_list_ascii.
  apply forallb_rev_eq.
Qed.

Lemma string_rev_empty (s : string) : string_rev s = "" <-> s = "".
Proof.
  split; [|intros ->; done]. unfold string_rev. intros H.
  apply (f_equal list_ascii_of_string) in H.
  rewrite list_ascii_of_string_of_list_ascii in H. simpl in H.
  destruct s as [|c r]; [done|]. simpl in H.
  destruct (rev (list_ascii_of_string r)); discriminate.
Qed.

Lemma trimStart_empty_iff (s : string) : trimStart s = "" <-> ws_only s = true.
Proof.
  split; [|apply trimStart_ws_only].
  intros H. rewrite <- ws_only_trimStart, H. done.
Qed.

Lemma trim_empty_iff (s : string) : trim s = "" <-> ws_only s = true.
Proof.
  unfold trim, trimEnd. rewrite string_rev_empty, trimStart_empty_iff,
    ws_only_rev, ws_only_trimStart. done.
Qed.

Lemma ws_only_app (a s : string) :
  ws_only (a ++ s) = (ws_only a && ws_only s)%bool.
Proof.
  induction a as [|c r IH]; [done|]. unfold ws_only in *. simpl.
  rewrite IH, andb_assoc. done.
Qed.

Lemma ws_padding_ws_only (s s' : string) :
  ws_padding s s' -> ws_only s' = ws_only s.
Proof.
  intros (a & b & Ha & Hb & ->). rewrite !ws_only_app, Ha, Hb.
  rewrite andb_true_r. done.
Qed.

Lemma validb_ws_only (d : doc) :
  validb d = (negb (ws_only (value (fld_name d))) &&
              negb (ws_only (value (fld_email d))) &&
              negb (ws_only (value (fld_message d))))%bool.
Proof.
  unfold validb, js_not.
  assert (Heq : forall s, String.eqb (trim s) "" = ws_only s).
  { intros s. pose proof (trim_empty_iff s) as Hiff.
    destruct (String.eqb (trim s) "") eqn:E.
    - apply String.eqb_eq in E. symmetry. apply Hiff, E.
    - apply String.eqb_neq in E. destruct (ws_only s); [|done].
      exfalso. apply E, Hiff. done. }
  rewrite !Heq, !negb_orb. done.
Qed.

(** Validation is exactly the presence of a non-whitespace character in
    each of the three values; nothing else (e.g. the shape of the email)
    is inspected. *)
Theorem submit_valid_iff_non_ws (d : doc) :
  valid d <->
  ws_only (value (fld_name d)) = false /\
  ws_only (value (fld_email d)) = false /\
  ws_only (value (fld_message d)) = false.
Proof.
  rewrite <- validb_true, validb_ws_only.
  destruct (ws_only (value (fld_name d))), (ws_only (value (fld_email d))),
           (ws_only (value (fld_message d))); simpl; intuition congruence.
Qed.

(** Surrounding whitespace never changes the outcome: same status text,
    same operations. *)
Theorem submit_ignores_ws_padding (w w' : world) :
  ws_padding (value (fld_name (wdoc w))) (value (fld_name (wdoc w'))) ->
  ws_padding (value (fld_email (wdoc w))) (value (fld_email (wdoc w'))) ->
  ws_padding (value (fld_message (wdoc w))) (value (fld_message (wdoc w'))) ->
  form_message (wdoc (submit_handler w')) = form_message (wdoc (submit_handler w)) /\
  new_effects w' (submit_handler w') = new_effects w (submit_handler w).
Proof.
  intros Hn He Hm.
  assert (Hv : validb (wdoc w') = validb (wdoc w)).
  { rewrite !validb_ws_only, (ws_padding_ws_only _ _ Hn),
      (ws_padding_ws_only _ _ He), (ws_padding_ws_only _ _ Hm). done. }
  rewrite !submit_handler_eq. simpl. rewrite Hv.
  destruct (validb (wdoc w)); rewrite !new_effects_app; simpl; auto.
Qed.

Lemma submit_ignores_ws_padding_witness :
  let w := mkWorld (page_doc "Ada" "a@b.c" "Hi" "") false [] in
  let w' := mkWorld (page_doc " Ada	" "a@b.c " "  Hi" "old") true [] in
  form_message (wdoc (submit_handler w')) = form_message (wdoc (submit_handler w)) /\
  new_effects w' (submit_handler w') = new_effects w (submit_handler w).
Proof.
  apply submit_ignores_ws_padding.
  - exists " ", "	". done.
  - exists "", " ". done.
  - exists "  ", "". done.
Defined.

(** A failing submission submitted again gives the same document. *)
Theorem submit_failure_repeat (w : world) :
  ~ valid (wdoc w) ->
  wdoc (submit_handler (submit_handler w)) = wdoc (submit_handler w).
Proof.
  intros Hnv. rewrite <- validb_true in Hnv. apply not_true_is_false in Hnv.
  rewrite (submit_handler_eq w). cbv zeta. rewrite Hnv. simpl.
  rewrite submit_handler_eq. cbv zeta. simpl.
  assert (Hv : validb (mkDoc (fld_name (wdoc w)) (fld_email (wdoc w))
                          (fld_message (wdoc w)) msg_missing) = false)
    by (unfold validb in *; simpl; done).
  rewrite Hv. done.
Qed.

Lemma submit_failure_repeat_witness :
  wdoc (submit_handler (submit_handler
          (mkWorld (page_doc "Ada" "" "Hi" "") false []))) =
  wdoc (submit_handler (mkWorld (page_doc "Ada" "" "Hi" "") false [])).
Proof.
  apply submit_failure_repeat. simpl. unfold valid. simpl. intuition.
Defined.

(** After a successful submission, submitting again without edits fails
    when one of the fields' default values is whitespace only (e.g.
    empty): the form is left at its defaults. *)
Theorem submit_after_success_fails (w : world) :
  valid (wdoc w) ->
  ws_only (defaultValue (fld_name (wdoc w))) = true \/
  ws_only (defaultValue (fld_email (wdoc w))) = true \/
  ws_only (defaultValue (fld_message (wdoc w))) = true ->
  let w2 := submit_handler (submit_handler w) in
  form_message (wdoc w2) = "Please fill in all fields." /\
  fld_name (wdoc w2) = reset_field (fld_name (wdoc w)) /\
  fld_email (wdoc w2) = reset_field (fld_email (wdoc w)) /\
  fld_message (wdoc w2) = reset_field (fld_message (wdoc w)).
Proof.
  intros Hv Hdef. rewrite <- validb_true in Hv.
  rewrite (submit_handler_eq w). cbv zeta. rewrite Hv. simpl.
  rewrite submit_handler_eq. cbv zeta. simpl.
  rewrite validb_ws_only. simpl.
  destruct Hdef as [H|[H|H]]; rewrite H; simpl;
    rewrite ?andb_false_r; simpl; auto.
Qed.

Lemma submit_after_success_fails_witness :
  let w2 := submit_handler (submit_handler
              (mkWorld (page_doc "Ada" "ada@example.com" "Hello" "") false [])) in
  form_message (wdoc w2) = "Please fill in all fields." /\
  value (fld_name (wdoc w2)) = "".
Proof.
  destruct (submit_after_success_fails
              (mkWorld (page_doc "Ada" "ada@example.com" "Hello" "") false []))
    as [H1 [H2 _]].
  - apply validb_true. reflexivity.
  - left. reflexivity.
  - split; [exact H1|]. rewrite H2. reflexivity.
Defined.

(* ================================================================= *)
(** ** Further properties of the progress animation *)

Lemma steps_pending_shrink (q r : page) (i : nat) :
  steps q r -> In i (pending r) -> In i (pending q).
Proof.
  induction 1 as [q|q q' r Hs Hss IH]; intros Hi; [done|].
  specialize (IH Hi). destruct Hs as [q|q t1 t t2 Htq _]; [done|].
  unfold pending in *. simpl in IH. rewrite Htq, map_app.
  rewrite map_app in IH. apply in_app_or in IH as [H|H]; apply in_or_app;
    [left|right; right]; done.
Qed.

Lemma steps_trans (p q r : page) : steps p q -> steps q r -> steps p r.
Proof.
  induction 1 as [p|p p' q Hs Hss IH]; intros Hqr; [done|].
  eapply steps_cons; eauto.
Qed.

Lemma steps_ticks (k : nat) (q : page) :
  steps q (mkPage (k + now q) (elems q) (timers q)).
Proof.
  revert q. induction k as [|k IH]; intros q.
  - destruct q. apply steps_refl.
  - eapply steps_cons; [apply step_tick|]. specialize (IH (mkPage (S (now q)) (elems q) (timers q))).
    simpl in IH. replace (S k + now q) with (k + S (now q)) by lia. exact IH.
Qed.

Lemma steps_fire_all (l : list timer) :
  forall q, timers q = l -> (forall t, In t l -> t_due t <= now q) ->
  exists r, steps q r /\ timers r = [].
Proof.
  induction l as [|t l IH]; intros q Hq Hdue.
  - exists q. split; [apply steps_refl|done].
  - set (q' := mkPage (now q) (alter (set_width (t_width t)) (t_idx t) (elems q)) ([] ++ l)).
    assert (Hs : step q q').
    { apply step_fire; [rewrite Hq; done|]. apply Hdue. left. done. }
    destruct (IH q') as [r [Hr Hrt]]; [done| |].
    + intros t' Ht'. apply Hdue. right. done.
    + exists r. split; [eapply steps_cons; eauto|done].
Qed.

(** Elements that do not match .progress are never changed, at any time
    after the handler, and no element is created or removed. *)
Theorem progress_others_untouched (p : page) :
  timers p = [] ->
  forall q, steps (on_dom_content_loaded p) q ->
  List.length (elems q) = List.length (elems p) /\
  (forall i e, elems p !! i = Some e -> is_progress e = false ->
     elems q !! i = Some e).
Proof.
  intros Ht q Hs. destruct (dom_ready_inv p Ht) as [Hinv [_ Hpend]].
  pose proof (steps_inv _ _ _ Hinv Hs) as Hq.
  split; [apply Hq|]. intros i e He Hp.
  apply (anim_inv_fired p q i e Hq He). intros Hi.
  apply (steps_pending_shrink _ _ _ Hs) in Hi. rewrite Hpend in Hi.
  apply in_query_progress in Hi as [e' [He' Hp']]. congruence.
Qed.

Lemma progress_others_untouched_witness :
  let p := mkPage 0 [mkElem false "50%"; mkElem true "75%"] [] in
  List.length (elems (on_dom_content_loaded p)) = 2 /\
  elems (on_dom_content_loaded p) !! 0 = Some (mkElem false "50%").
Proof.
  destruct (progress_others_untouched
              (mkPage 0 [mkElem false "50%"; mkElem true "75%"] []) eq_refl
              _ (steps_refl _)) as [Hl Hel].
  split; [exact Hl|]. apply Hel; reflexivity.
Defined.

(** The handler schedules exactly one callback per matched element, in
    tree order, all due 300 ms later, each carrying the width that
    element had before the handler. *)
Theorem progress_one_timer_per_bar (p : page) :
  timers p = [] ->
  let p1 := on_dom_content_loaded p in
  List.map t_idx (timers p1) = querySelectorAll_progress (elems p) /\
  (forall t, In t (timers p1) ->
     t_due t = now p + 300 /\
     exists e, elems p !! t_idx t = Some e /\ is_progress e = true /\
               t_width t = style_width e).
Proof.
  intros Ht. simpl. destruct (dom_ready_inv p Ht) as [Hinv [_ Hpend]].
  split; [exact Hpend|]. intros t Hin.
  destruct Hinv as [_ [_ [Htm _]]]. destruct (Htm t Hin) as [e [He [Hw Hd]]].
  split; [done|]. exists e. split_and!; try done.
  assert (Hi : In (t_idx t) (pending (on_dom_content_loaded p)))
    by (unfold pending; apply in_map; done).
  rewrite Hpend in Hi. apply in_query_progress in Hi as [e' [He' Hp']].
  congruence.
Qed.

Lemma progress_one_timer_per_bar_witness :
  let p := mkPage 0 [mkElem true "75%"; mkElem false ""; mkElem true "1px"] [] in
  List.map t_idx (timers (on_dom_content_loaded p)) = [0; 2].
Proof.
  destruct (progress_one_timer_per_bar
              (mkPage 0 [mkElem true "75%"; mkElem false ""; mkElem true "1px"] [])
              eq_refl) as [H _].
  exact H.
Defined.

(** Whatever has happened since the handler ran, the event loop can still
    run every pending callback, and the document then is the one before
    the handler. *)
Theorem progress_animation_completes (p : page) :
  timers p = [] ->
  forall q, steps (on_dom_content_loaded p) q ->
  exists r, steps q r /\ timers r = [] /\ elems r = elems p.
Proof.
  intros Ht q Hs. destruct (dom_ready_inv p Ht) as [Hinv _].
  pose proof (steps_inv _ _ _ Hinv Hs) as Hq.
  set (q' := mkPage ((now p + 300 - now q) + now q) (elems q) (timers q)).
  assert (Hq' : steps q q') by apply steps_ticks.
  destruct (steps_fire_all (timers q) q') as [r [Hr Hrt]]; [done| |].
  - intros t Hin. destruct Hq as [_ [_ [Htm _]]].
    destruct (Htm t Hin) as [e [_ [_ Hd]]]. simpl. lia.
  - exists r. split_and!; [eapply steps_trans; eauto|done|].
    apply (anim_inv_all_fired p r); [|done].
    eapply steps_inv; [exact Hq|]. eapply steps_trans; eauto.
Qed.

Lemma progress_animation_completes_witness :
  let p := mkPage 0 [mkElem true "75%"] [] in
  exists r, steps (on_dom_content_loaded p) r /\ timers r = [] /\ elems r = elems p.
Proof.
  apply (progress_animation_completes (mkPage 0 [mkElem true "75%"] []) eq_refl).
  apply steps_refl.
Defined.
